(** * The event handler of [lambda_event_handler.py]

    A shallow embedding of [add_type], [group_dict], [add_events_to_group],
    [validate_event] and [lambda_handler], and the properties of the
    validate / classify / group pipeline they implement.

    Python objects live in a heap and are passed by reference, because
    [add_type] updates the event dictionary it is given in place and the
    groups hold the very same dictionaries. *)

From Stdlib Require Import ZArith String Ascii.
From stdpp Require Import base list strings.

Local Open Scope string_scope.

(** ** Values, objects and the heap *)

Abbreviation loc := nat.

(** The values an event can be built from (what [json.loads] produces, or a
    Python literal such as the module's own [event]): scalars are immediate,
    dictionaries and lists are references into the heap.  A float is kept as
    its uninterpreted bit pattern: no operation of this module looks into it. *)
Inductive pyval : Type :=
| VNone
| VBool (b : bool)
| VInt (z : Z)
| VFloat (bits : Z)
| VStr (s : string)
| VRef (l : loc).

(** A dictionary with string keys, in insertion order. *)
Definition dict := list (string * pyval).

Inductive pyobj : Type :=
| ODict (d : dict)
| OList (xs : list pyval).

Abbreviation heap := (list pyobj).

#[global] Instance pyval_eq_dec : EqDecision pyval.
Proof. solve_decision. Defined.

#[global] Instance pyobj_eq_dec : EqDecision pyobj.
Proof. solve_decision. Defined.

(** ** Exceptions and outcomes *)

Inductive exn : Type :=
| KeyError (k : string)
| AttributeError
| TypeError
| IndexError
| OSError.

#[global] Instance exn_eq_dec : EqDecision exn.
Proof. solve_decision. Defined.

Inductive outcome (A : Type) : Type :=
| Returns (a : A)
| Raises (e : exn).

Arguments Returns {A} a.
Arguments Raises {A} e.

Definition obind {A B} (m : outcome A) (k : A -> outcome B) : outcome B :=
  match m with
  | Returns a => k a
  | Raises e => Raises e
  end.

Notation "'let?' x := m 'in' k" := (obind m (fun x => k))
  (at level 10, x name, m at level 100, k at level 200).

(** ** Dictionary primitives *)

Fixpoint dict_get (k : string) (d : dict) : option pyval :=
  match d with
  | [] => None
  | (k', v) :: d' => if String.eqb k' k then Some v else dict_get k d'
  end.

(** [d[k] = v]: an existing key keeps its position, a new key goes last. *)
Fixpoint dict_set (k : string) (v : pyval) (d : dict) : dict :=
  match d with
  | [] => [(k, v)]
  | (k', v') :: d' =>
      if String.eqb k' k then (k, v) :: d' else (k', v') :: dict_set k v d'
  end.

Definition dict_keys (d : dict) : list string := map fst d.

(** [o[k]] for a string [k].  Only a dictionary can be subscripted with a
    string; a reference that denotes no object is treated like a value that
    is not a container. *)
Definition getitem (h : heap) (o : pyval) (k : string) : outcome pyval :=
  match o with
  | VRef l =>
      match h !! l with
      | Some (ODict d) =>
          match dict_get k d with
          | Some v => Returns v
          | None => Raises (KeyError k)
          end
      | _ => Raises TypeError
      end
  | _ => Raises TypeError
  end.

(** [o[k] = v] for a string [k]. *)
Definition setitem (h : heap) (o : pyval) (k : string) (v : pyval)
  : outcome heap :=
  match o with
  | VRef l =>
      match h !! l with
      | Some (ODict d) => Returns (<[l := ODict (dict_set k v d)]> h)
      | _ => Raises TypeError
      end
  | _ => Raises TypeError
  end.

(** [o.keys()]: only dictionaries have the method. *)
Definition keys (h : heap) (o : pyval) : outcome (list string) :=
  match o with
  | VRef l =>
      match h !! l with
      | Some (ODict d) => Returns (dict_keys d)
      | _ => Raises AttributeError
      end
  | _ => Raises AttributeError
  end.

(** [for e in o]: a list yields its elements, a dictionary its keys, a
    string its characters (one-character strings; bytes here, code points
    in Python, which no caller in this module tells apart); nothing else
    is iterable. *)
Definition iterate (h : heap) (o : pyval) : outcome (list pyval) :=
  match o with
  | VStr s =>
      Returns (map (fun c => VStr (String c EmptyString)) (list_ascii_of_string s))
  | VRef l =>
      match h !! l with
      | Some (OList xs) => Returns xs
      | Some (ODict d) => Returns (map VStr (dict_keys d))
      | None => Raises TypeError
      end
  | _ => Raises TypeError
  end.

(** ** String primitives *)

(** [s.split(sep)] for a one-character separator.  The separator used by
    the module is [":"], an ASCII character, which never occurs inside a
    multi-byte UTF-8 sequence, so splitting bytes and splitting code points
    agree. *)
Fixpoint split (sep : ascii) (s : string) : list string :=
  match s with
  | EmptyString => [EmptyString]
  | String c s' =>
      if Ascii.eqb c sep then EmptyString :: split sep s'
      else match split sep s' with
           | w :: ws => String c w :: ws
           | [] => [String c EmptyString]
           end
  end.

(** [v.split(sep)]: the method exists on strings only. *)
Definition str_split (v : pyval) (sep : ascii) : outcome (list string) :=
  match v with
  | VStr s => Returns (split sep s)
  | _ => Raises AttributeError
  end.

(** [l[0]] *)
Definition first_item (l : list string) : outcome string :=
  match l with
  | x :: _ => Returns x
  | [] => Raises IndexError
  end.

(** [v == t] where [t] is a string: a value that is not a string is never
    equal to one. *)
Definition py_eq_str (v : pyval) (t : string) : bool :=
  match v with
  | VStr s => String.eqb s t
  | _ => false
  end.

(** ** The groups *)

(** A group is the dictionary [{"event_type": t, "events": [...]}] that
    [group_dict] creates.  Groups are created inside [add_events_to_group]
    and nothing else refers to them, so they are kept as values; their
    [events] are references to the event dictionaries of the heap.  The
    type name is a string ([type_name (str)] in the docstring). *)
Record group : Type := Group {
  event_type : string;
  events : list pyval
}.

#[global] Instance group_eq_dec : EqDecision group.
Proof. solve_decision. Defined.

Definition group_dict (type_name : string) : group :=
  {| event_type := type_name; events := [] |}.

(** The inner loop of [add_events_to_group] for one event [e]:
    [for g in groups: if e["event_type"] == g["event_type"]:
       g["events"].append(e)].
    The subscript [e["event_type"]] is evaluated once per group, so nothing
    is raised when there is no group at all. *)
Fixpoint place_event (h : heap) (e : pyval) (groups : list group)
  : outcome (list group) :=
  match groups with
  | [] => Returns []
  | g :: gs =>
      let? t := getitem h e "event_type" in
      let g' := if py_eq_str t (event_type g)
                then {| event_type := event_type g; events := events g ++ [e] |}
                else g in
      let? gs' := place_event h e gs in
      Returns (g' :: gs')
  end.

(** The outer loop: [for e in events: ...]. *)
Fixpoint place_events (h : heap) (evs : list pyval) (groups : list group)
  : outcome (list group) :=
  match evs with
  | [] => Returns groups
  | e :: es =>
      let? groups' := place_event h e groups in
      place_events h es groups'
  end.

(** [logger.debug] is below the logger's level ([INFO]) and emits nothing. *)
Definition add_events_to_group (h : heap) (evs : list pyval)
  (event_types : list string) : outcome (list group) :=
  place_events h evs (map group_dict event_types).

(** ** Validation *)

Definition required_keys : list string := ["name"; "event_id"].

(** [required_keys.issubset(event.keys())] *)
Definition validate_event (h : heap) (event : pyval) : outcome bool :=
  let? ks := keys h event in
  Returns (forallb (fun k => bool_decide (k ∈ ks)) required_keys).

(** ** The state of a run: heap, standard output and log *)

(** What [print(g)] shows: the group, read in the heap of that moment. *)
Record printed : Type := Printed {
  p_group : group;
  p_heap : heap
}.

Inductive log_entry : Type :=
| LogWarning (msg : string)
| LogError (msg : string) (e : exn).

Record state : Type := State {
  st_heap : heap;
  st_stdout : list printed;
  st_log : list log_entry
}.

Definition M (A : Type) : Type := state -> outcome A * state.

Definition ret {A} (a : A) : M A := fun s => (Returns a, s).

Definition raise {A} (e : exn) : M A := fun s => (Raises e, s).

Definition bind {A B} (m : M A) (k : A -> M B) : M B :=
  fun s =>
    match m s with
    | (Returns a, s') => k a s'
    | (Raises e, s') => (Raises e, s')
    end.

Notation "'do' x <- m ; k" := (bind m (fun x => k))
  (at level 10, x name, m at level 100, k at level 200).

(** An operation that only reads the heap. *)
Definition read {A} (f : heap -> outcome A) : M A :=
  fun s => (f (st_heap s), s).

(** An operation that replaces the heap when it succeeds. *)
Definition write (f : heap -> outcome heap) : M unit :=
  fun s =>
    match f (st_heap s) with
    | Returns h' =>
        (Returns tt,
         {| st_heap := h'; st_stdout := st_stdout s; st_log := st_log s |})
    | Raises e => (Raises e, s)
    end.

Definition logger (entry : log_entry) : M unit :=
  fun s =>
    (Returns tt,
     {| st_heap := st_heap s; st_stdout := st_stdout s;
        st_log := st_log s ++ [entry] |}).

(** [try: m except KeyError as e: handler e] *)
Definition except_KeyError {A} (m : M A) (handler : exn -> M A) : M A :=
  fun s =>
    match m s with
    | (Raises (KeyError k), s') => handler (KeyError k) s'
    | r => r
    end.

Fixpoint mapM {A B} (f : A -> M B) (l : list A) : M (list B) :=
  match l with
  | [] => ret []
  | x :: xs => do y <- f x; do ys <- mapM f xs; ret (y :: ys)
  end.

(** [[x for x in l if p(x)]] *)
Fixpoint filterM {A} (p : A -> M bool) (l : list A) : M (list A) :=
  match l with
  | [] => ret []
  | x :: xs =>
      do b <- p x; do ys <- filterM p xs; ret (if b then x :: ys else ys)
  end.

(** [for x in l: f(x)] *)
Fixpoint forM_ {A} (f : A -> M unit) (l : list A) : M unit :=
  match l with
  | [] => ret tt
  | x :: xs => do _ <- f x; forM_ f xs
  end.

(** ** Classification *)

Definition sep : ascii := ":"%char.

Definition add_type (event : pyval) : M pyval :=
  except_KeyError
    (do name <- read (fun h => getitem h event "name");
     do parts <- read (fun _ => str_split name sep);
     do ty <- read (fun _ => first_item parts);
     do _ <- write (fun h => setitem h event "event_type" (VStr ty));
     ret event)
    (fun e => do _ <- logger (LogError "Missing key in event" e); raise e).

(** ** The handler *)

Section Handler.

(** [list(set(l))] for a list of strings: every distinct string once, in
    the iteration order of the set, which depends on the strings' hashes
    and is fixed within one process. *)
Variable list_of_set : list string -> list string.

(** Whether writing a group to standard output succeeds; [print] raises
    when it does not (closed or broken stream, encoding error). *)
Variable write_ok : group -> heap -> bool.

Definition print (g : group) : M unit :=
  fun s =>
    if write_ok g (st_heap s) then
      (Returns tt,
       {| st_heap := st_heap s;
          st_stdout := st_stdout s ++ [Printed g (st_heap s)];
          st_log := st_log s |})
    else (Raises OSError, s).

(** The elements of a set are hashed.  [add_type] has stored a string
    under ["event_type"] in every element of [events_with_type], and the
    groups are keyed by strings; a value of another kind does not occur
    here and is reported as a [TypeError]. *)
Definition type_name_of (v : pyval) : outcome string :=
  match v with
  | VStr s => Returns s
  | _ => Raises TypeError
  end.

(** Lines 110-113 of [lambda_handler]: the types and the groups. *)
Definition group_by_type (events_with_type : list pyval) : M (list group) :=
  do names <- mapM (fun e => read (fun h =>
                      let? v := getitem h e "event_type" in type_name_of v))
                   events_with_type;
  let event_types := list_of_set names in
  read (fun h => add_events_to_group h events_with_type event_types).

(** Lines 104-113 of [lambda_handler]: from the input to [events_groups]. *)
Definition lambda_handler_groups (event : pyval) : M (list group) :=
  do evs <- read (fun h => getitem h event "events");
  do items <- read (fun h => iterate h evs);
  do events_validate <- filterM (fun e => read (fun h => validate_event h e)) items;
  do _ <- (if bool_decide (length events_validate ≠ length items)
      then logger (LogWarning "Some events failed validation and were excluded.")
      else ret tt);
  do events_with_type <- mapM add_type events_validate;
  group_by_type events_with_type.

Definition processed : string := "events processed".
Definition missing_key : string := "Error: Missing key in event data".
Definition unexpected : string := "Error: An unexpected error occurred".

(** The whole function: the body runs inside one [try]; a [KeyError] and
    any other [Exception] are logged and turned into an error string. *)
Definition lambda_handler (event context : pyval) : state -> string * state :=
  fun s =>
    match (do events_groups <- lambda_handler_groups event;
           do _ <- forM_ print events_groups;
           ret processed) s with
    | (Returns r, s') => (r, s')
    | (Raises (KeyError k), s') =>
        (missing_key,
         snd (logger (LogError "Missing key in event data" (KeyError k)) s'))
    | (Raises e, s') =>
        (unexpected,
         snd (logger (LogError "An unexpected error occurred" e) s'))
    end.

End Handler.

Arguments group_by_type list_of_set events_with_type s : assert.
Arguments lambda_handler_groups list_of_set event s : assert.
Arguments lambda_handler list_of_set write_ok event context s : assert.

(** ** Building inputs *)

(** The heap of a freshly built input [{"events": [r0, r1, ...]}] whose
    elements are dictionaries: the outer dictionary at location 0, the list
    at location 1, the records from location 2 on. *)
Definition batch_heap (records : list dict) : heap :=
  ODict [("events", VRef 1)]
  :: OList (map VRef (seq 2 (length records)))
  :: map ODict records.

Definition initial (h : heap) : state :=
  {| st_heap := h; st_stdout := []; st_log := [] |}.

(** The three inputs the module itself runs the handler on. *)
Definition event : list dict :=
  [ [("name", VStr "user:created"); ("event_id", VInt 1)];
    [("name", VStr "user:updated"); ("event_id", VInt 2)];
    [("name", VStr "account:created"); ("event_id", VInt 3)];
    [("name", VStr "campaign:created"); ("event_id", VInt 4)];
    [("name", VStr "video:watched"); ("event_id", VInt 5)];
    [("name", VStr "user:created"); ("event_id", VInt 6)];
    [("name", VStr "request:performed"); ("event_id", VInt 7)] ].

Definition new_event : list dict :=
  [ [("name", VStr "user:created"); ("event_id", VInt 1)];
    [("name", VStr "order:placed"); ("event_id", VInt 8)];
    [("name", VStr "order:shipped"); ("event_id", VInt 9)];
    [("name", VStr "order:delivered"); ("event_id", VInt 10)];
    [("name", VStr "user:updated"); ("event_id", VInt 2)] ].

Definition invalid_event : list dict :=
  [ [("name", VStr "user:created"); ("event_id", VInt 1)];
    [("name", VStr "order:placed")];
    [("name", VStr "order:shipped"); ("event_id", VInt 9)];
    [("event_id", VInt 10)];
    [("name", VStr "user:updated"); ("event_id", VInt 2)] ].

(** ** Iteration orders of a set *)

(** The distinct elements of a list in the order of their first occurrence. *)
Fixpoint first_seen (l : list string) : list string :=
  match l with
  | [] => []
  | x :: xs => x :: filter (fun y => y ≠ x) (first_seen xs)
  end.

(** Two of the orders a set of strings can be iterated in. *)
Definition first_seen_order (l : list string) : list string := first_seen l.
Definition last_seen_order (l : list string) : list string :=
  reverse (first_seen l).

Definition always_ok (g : group) (h : heap) : bool := true.

(** ** Specification-side notions *)

(** The category of a name as the specification words it: the part of the
    name before the first [":"], or the whole name when there is none. *)
Definition category (name : string) : string :=
  match index 0 ":" name with
  | Some n => substring 0 n name
  | None => name
  end.

Definition is_dict (h : heap) (v : pyval) : bool :=
  match v with
  | VRef l => match h !! l with Some (ODict _) => true | _ => false end
  | _ => false
  end.

Definition has_key (h : heap) (v : pyval) (k : string) : bool :=
  match getitem h v k with
  | Returns _ => true
  | Raises _ => false
  end.

(** A record with both required keys. *)
Definition accepted_by (h : heap) (e : pyval) : bool :=
  has_key h e "name" && has_key h e "event_id".

Definition accepted (h : heap) (items : list pyval) : list pyval :=
  filter (fun e => accepted_by h e) items.

Definition rejected (h : heap) (items : list pyval) : list pyval :=
  filter (fun e => ¬ accepted_by h e) items.

Definition name_of (h : heap) (e : pyval) : option string :=
  match getitem h e "name" with
  | Returns (VStr n) => Some n
  | _ => None
  end.

Definition category_of (h : heap) (e : pyval) : option string :=
  category <$> name_of h e.

(** The heap after [add_type] has run on a record whose name is a string. *)
Definition decorate (h : heap) (e : pyval) : heap :=
  match e, category_of h e with
  | VRef l, Some t =>
      match h !! l with
      | Some (ODict d) => <[l := ODict (dict_set "event_type" (VStr t) d)]> h
      | _ => h
      end
  | _, _ => h
  end.

Definition decorate_all (h : heap) (evs : list pyval) : heap :=
  foldl decorate h evs.

(** A record is decorated when it carries the category of its name. *)
Definition decorated (h : heap) (e : pyval) : Prop :=
  ∃ t, category_of h e = Some t ∧ getitem h e "event_type" = Returns (VStr t).

(** A record whose name is a string. *)
Definition named (h : heap) (e : pyval) : bool :=
  bool_decide (is_Some (name_of h e)).

(** The records [add_type] gets through before the first name that is not
    a string. *)
Fixpoint named_prefix (h : heap) (evs : list pyval) : list pyval :=
  match evs with
  | [] => []
  | e :: es => if named h e then e :: named_prefix h es else []
  end.

Definition warning (h : heap) (items : list pyval) : list log_entry :=
  if bool_decide (length (accepted h items) ≠ length items)
  then [LogWarning "Some events failed validation and were excluded."]
  else [].

Definition categories (h : heap) (evs : list pyval) : list string :=
  omap (category_of h) evs.

(** Whether [e["event_type"] == t] holds. *)
Definition matches (h : heap) (t : string) (e : pyval) : bool :=
  match getitem h e "event_type" with
  | Returns v => py_eq_str v t
  | Raises _ => false
  end.

(** The groups of a batch: one per type in the order [order] lists them,
    each with the accepted records of that category in batch order. *)
Definition expected_groups (order : list string -> list string)
  (h : heap) (items : list pyval) : list group :=
  map (fun t => Group t (filter (fun e => category_of h e = Some t) (accepted h items)))
      (order (categories h (accepted h items))).




(** The groups that reach standard output: those before the first one
    whose writing fails. *)
Fixpoint written_prefix (write_ok : group -> heap -> bool) (h : heap)
  (groups : list group) : list group :=
  match groups with
  | [] => []
  | g :: gs => if write_ok g h then g :: written_prefix write_ok h gs else []
  end.

Definition all_written (write_ok : group -> heap -> bool) (h : heap)
  (groups : list group) : bool :=
  forallb (fun g => write_ok g h) groups.

(** What [list(set(l))] guarantees whatever the hashes are: every distinct
    element of [l] exactly once. *)
Definition set_order (order : list string -> list string) : Prop :=
  ∀ l, NoDup (order l) ∧ ∀ x, x ∈ order l ↔ x ∈ l.

(** A standard output on which writing the group of type [t] fails. *)
Definition fails_on (t : string) (g : group) (h : heap) : bool :=
  negb (String.eqb (event_type g) t).

(** The object a value refers to. *)
Definition contents (h : heap) (v : pyval) : option pyobj :=
  match v with
  | VRef l => h !! l
  | _ => None
  end.

(** What the caller of the handler gets to see: the returned string, the
    standard output and the log. *)
Definition observe (r : string * state) : string * list printed * list log_entry :=
  (fst r, st_stdout (snd r), st_log (snd r)).

(** * Properties *)

(** ** Dictionaries *)

Lemma dict_get_set_eq k v d : dict_get k (dict_set k v d) = Some v.
Proof.
  induction d as [|[k' v'] d IH]; simpl.
  - by rewrite String.eqb_refl.
  - destruct (String.eqb_spec k' k) as [->|Hne]; simpl.
    + by rewrite String.eqb_refl.
    + by destruct (String.eqb_spec k' k).
Qed.

Lemma dict_get_set_ne k k' v d :
  k ≠ k' → dict_get k' (dict_set k v d) = dict_get k' d.
Proof.
  intros Hne. induction d as [|[k0 v0] d IH]; simpl.
  - by destruct (String.eqb_spec k k').
  - destruct (String.eqb_spec k0 k) as [->|Hk0]; simpl.
    + by destruct (String.eqb_spec k k').
    + by rewrite IH.
Qed.

Lemma dict_set_id k v d : dict_get k d = Some v → dict_set k v d = d.
Proof.
  induction d as [|[k0 v0] d IH]; simpl; [done|].
  destruct (String.eqb_spec k0 k) as [->|Hk0].
  - by intros [= ->].
  - intros H. by rewrite IH.
Qed.

Lemma dict_get_keys k d : is_Some (dict_get k d) ↔ k ∈ dict_keys d.
Proof.
  induction d as [|[k0 v0] d IH]; simpl.
  - split; [by intros [? ?]|by intros ?%elem_of_nil].
  - rewrite elem_of_cons. destruct (String.eqb_spec k0 k) as [->|Hk0].
    + split; [by left|by eexists].
    + rewrite IH. split; [by right|]. by intros [->|?].
Qed.

Lemma dict_keys_set k v d k' :
  k' ∈ dict_keys (dict_set k v d) ↔ k' = k ∨ k' ∈ dict_keys d.
Proof.
  rewrite <-!dict_get_keys. destruct (decide (k = k')) as [->|Hne].
  - rewrite dict_get_set_eq. split; [by left|by eexists].
  - rewrite dict_get_set_ne by done. split; [by right|]. by intros [->|?].
Qed.

(** ** Splitting a name *)

Lemma split_nonempty c s : split c s ≠ [].
Proof.
  destruct s as [|a s]; simpl; [done|].
  destruct (Ascii.eqb a c); [done|]. by destruct (split c s).
Qed.

(** [name.split(":")[0]] is the category of the specification. *)
Lemma split_first_category s : first_item (split sep s) = Returns (category s).
Proof.
  unfold category. induction s as [|c s IH]; [done|].
  cbn [split index String.prefix].
  destruct (Ascii.eqb_spec c sep) as [->|Hc].
  - destruct (ascii_dec ":" sep) as [_|Hne]; [by destruct s|by destruct Hne].
  - destruct (ascii_dec ":" c) as [<-|_]; [done|].
    destruct (split sep s) as [|w ws] eqn:Hs; [by apply split_nonempty in Hs|].
    simpl in IH. injection IH as ->.
    by destruct (index 0 ":" s).
Qed.

(** ** Heap reads *)

Lemma getitem_Returns h o k v :
  getitem h o k = Returns v ↔
  ∃ l d, o = VRef l ∧ h !! l = Some (ODict d) ∧ dict_get k d = Some v.
Proof.
  unfold getitem. split.
  - destruct o as [| | | | |l]; try done.
    destruct (h !! l) as [[d|xs]|] eqn:Hl; try done.
    destruct (dict_get k d) eqn:Hk; [|done]. intros [= ->]. eauto.
  - intros (l & d & -> & -> & ->). done.
Qed.

Lemma has_key_dict h l d k :
  h !! l = Some (ODict d) →
  has_key h (VRef l) k = bool_decide (k ∈ dict_keys d).
Proof.
  intros Hl. unfold has_key, getitem. rewrite Hl.
  destruct (dict_get k d) eqn:Hk; symmetry.
  - apply bool_decide_eq_true, dict_get_keys. by eexists.
  - apply bool_decide_eq_false. rewrite <-dict_get_keys, Hk. by intros [? ?].
Qed.

Lemma validate_event_dict h l d :
  h !! l = Some (ODict d) →
  validate_event h (VRef l) = Returns (accepted_by h (VRef l)).
Proof.
  intros Hl. unfold validate_event, keys, accepted_by. rewrite Hl. simpl.
  by rewrite !(has_key_dict h l d), andb_true_r.
Qed.

Lemma is_dict_spec h v :
  is_dict h v ↔ ∃ l d, v = VRef l ∧ h !! l = Some (ODict d).
Proof.
  unfold is_dict. split.
  - destruct v as [| | | | |l]; try done.
    destruct (h !! l) as [[d|xs]|] eqn:Hl; try done. eauto.
  - intros (l & d & -> & Hl). rewrite Hl. exact I.
Qed.

Lemma validate_event_run h e :
  validate_event h e =
  if is_dict h e then Returns (accepted_by h e) else Raises AttributeError.
Proof.
  destruct (is_dict h e) eqn:Hd.
  - apply Is_true_true, is_dict_spec in Hd as (l & d & -> & Hl).
    by eapply validate_event_dict.
  - unfold validate_event, keys. unfold is_dict in Hd.
    destruct e as [| | | | |l]; try done.
    by destruct (h !! l) as [[d|xs]|].
Qed.

Lemma accepted_by_is_dict h e : accepted_by h e → is_dict h e.
Proof.
  unfold accepted_by, has_key. intros [H _]%andb_True.
  destruct (getitem h e "name") eqn:Hg; [|done].
  apply getitem_Returns in Hg as (l & d & -> & Hl & _).
  apply is_dict_spec. by exists l, d.
Qed.

(** ** What [add_type] does *)

Lemma category_of_Some h e t :
  category_of h e = Some t ↔
  ∃ n, getitem h e "name" = Returns (VStr n) ∧ t = category n.
Proof.
  unfold category_of, name_of. split.
  - destruct (getitem h e "name") as [[]|]; try done.
    intros [= <-]. eauto.
  - by intros (n & -> & ->).
Qed.

(** The complete behaviour of [add_type]: it decorates the dictionary it is
    given in place and returns that same reference, or raises, leaving the
    heap as it was. *)
Lemma add_type_run e h so lg :
  add_type e (State h so lg) =
  match getitem h e "name" with
  | Returns (VStr n) => (Returns e, State (decorate h e) so lg)
  | Returns _ => (Raises AttributeError, State h so lg)
  | Raises (KeyError k) =>
      (Raises (KeyError k),
       State h so (lg ++ [LogError "Missing key in event" (KeyError k)]))
  | Raises x => (Raises x, State h so lg)
  end.
Proof.
  unfold add_type, except_KeyError, bind, read, write, ret. simpl.
  destruct (getitem h e "name") as [v|x] eqn:Hname.
  - destruct v as [| | | |n|]; try done. simpl.
    rewrite split_first_category.
    pose proof Hname as (l & d & -> & Hl & Hd)%getitem_Returns.
    unfold setitem, decorate, category_of, name_of.
    by rewrite Hname, Hl.
  - by destruct x.
Qed.

Lemma decorate_lookup h x l :
  decorate h x !! l =
  match h !! l with
  | Some (ODict d) =>
      match category_of h x with
      | Some t =>
          if decide (x = VRef l)
          then Some (ODict (dict_set "event_type" (VStr t) d))
          else Some (ODict d)
      | None => Some (ODict d)
      end
  | o => o
  end.
Proof.
  unfold decorate.
  destruct (category_of h x) as [t|] eqn:Hc.
  - pose proof Hc as (n & (l' & d' & -> & Hl' & _)%getitem_Returns & _)%category_of_Some.
    rewrite Hc, Hl'. destruct (decide (l' = l)) as [->|Hne].
    + rewrite Hl'. rewrite decide_True by done.
      apply list_lookup_insert_eq. by eapply lookup_lt_Some.
    + rewrite list_lookup_insert_ne by done.
      destruct (h !! l) as [[d|xs]|]; try done.
      rewrite decide_False; [done|congruence].
  - destruct x; try rewrite Hc; by destruct (h !! l) as [[d|xs]|].
Qed.

(** Decorating one record changes no key but ["event_type"]. *)
Lemma getitem_decorate_ne h x e k :
  k ≠ "event_type" → getitem (decorate h x) e k = getitem h e k.
Proof.
  intros Hk. unfold getitem. destruct e as [| | | | |l]; try done.
  rewrite decorate_lookup. destruct (h !! l) as [[d|xs]|]; try done.
  destruct (category_of h x); [|done]. case_decide; [|done].
  by rewrite dict_get_set_ne.
Qed.

Lemma name_of_decorate h x e : name_of (decorate h x) e = name_of h e.
Proof. unfold name_of. by rewrite getitem_decorate_ne. Qed.

Lemma category_of_decorate h x e :
  category_of (decorate h x) e = category_of h e.
Proof. unfold category_of. by rewrite name_of_decorate. Qed.

Lemma has_key_decorate_ne h x e k :
  k ≠ "event_type" → has_key (decorate h x) e k = has_key h e k.
Proof. intros. unfold has_key. by rewrite getitem_decorate_ne. Qed.

Lemma accepted_by_decorate h x e :
  accepted_by (decorate h x) e = accepted_by h e.
Proof. unfold accepted_by. by rewrite !has_key_decorate_ne. Qed.


Lemma decorate_decorated h e t :
  category_of h e = Some t → getitem (decorate h e) e "event_type" = Returns (VStr t).
Proof.
  intros Hc.
  pose proof Hc as (n & (l & d & -> & Hl & _)%getitem_Returns & _)%category_of_Some.
  unfold getitem. rewrite decorate_lookup, Hl, Hc, decide_True by done.
  by rewrite dict_get_set_eq.
Qed.

Lemma decorated_id h e : decorated h e → decorate h e = h.
Proof.
  intros (t & Hc & (l & d & -> & Hl & Hd)%getitem_Returns).
  unfold decorate. rewrite Hc, Hl.
  apply list_insert_id. by rewrite Hl, dict_set_id.
Qed.

Lemma decorated_decorate h x e : decorated h e → decorated (decorate h x) e.
Proof.
  intros (t & Hc & Ht). exists t. rewrite category_of_decorate. split; [done|].
  destruct (decide (x = e)) as [->|Hne]; [by apply decorate_decorated|].
  apply getitem_Returns in Ht as (l & d & -> & Hl & Hd).
  unfold getitem. rewrite decorate_lookup, Hl.
  destruct (category_of h x); [|by rewrite Hd].
  rewrite decide_False by done. by rewrite Hd.
Qed.

Lemma decorate_all_cons h e evs :
  decorate_all h (e :: evs) = decorate_all (decorate h e) evs.
Proof. done. Qed.

Lemma getitem_decorate_all_ne h evs e k :
  k ≠ "event_type" → getitem (decorate_all h evs) e k = getitem h e k.
Proof.
  intros Hk. revert h. induction evs as [|x evs IH]; intros h; [done|].
  by rewrite decorate_all_cons, IH, getitem_decorate_ne.
Qed.

Lemma name_of_decorate_all h evs e :
  name_of (decorate_all h evs) e = name_of h e.
Proof. unfold name_of. by rewrite getitem_decorate_all_ne. Qed.

Lemma category_of_decorate_all h evs e :
  category_of (decorate_all h evs) e = category_of h e.
Proof. unfold category_of. by rewrite name_of_decorate_all. Qed.



Lemma decorated_decorate_all h evs e :
  decorated h e → decorated (decorate_all h evs) e.
Proof.
  revert h. induction evs as [|x evs IH]; intros h He; [done|].
  rewrite decorate_all_cons. by apply IH, decorated_decorate.
Qed.

Lemma named_category h e : named h e → is_Some (category_of h e).
Proof.
  unfold named, category_of. intros [n Hn]%bool_decide_unpack.
  rewrite Hn. by eexists.
Qed.

Lemma named_decorate h x e : named (decorate h x) e = named h e.
Proof. unfold named. by rewrite name_of_decorate. Qed.

Lemma named_prefix_decorate h x evs :
  named_prefix (decorate h x) evs = named_prefix h evs.
Proof.
  induction evs as [|e evs IH]; [done|]. simpl.
  by rewrite named_decorate, IH.
Qed.


Lemma named_prefix_named h evs : Forall (fun e => named h e) (named_prefix h evs).
Proof.
  induction evs as [|e evs IH]; simpl; [done|].
  destruct (named h e) eqn:He; [|done]. constructor; [by rewrite He|done].
Qed.

Lemma named_prefix_all h evs :
  Forall (fun e => named h e) evs → named_prefix h evs = evs.
Proof.
  induction 1 as [|e evs He _ IH]; simpl; [done|].
  apply Is_true_true in He. by rewrite He, IH.
Qed.

(** After the pass every record that was reached is decorated. *)
Lemma decorate_all_decorated h evs :
  Forall (fun e => named h e) evs →
  Forall (decorated (decorate_all h evs)) evs.
Proof.
  revert h. induction evs as [|e evs IH]; intros h Hn; [done|].
  apply Forall_cons in Hn as [He Hn]. rewrite decorate_all_cons.
  constructor.
  - apply decorated_decorate_all. apply named_category in He as [t Ht].
    exists t. rewrite category_of_decorate. split; [done|].
    by apply decorate_decorated.
  - apply IH. eapply Forall_impl; [done|]. intros x. by rewrite named_decorate.
Qed.


(** ** The stages of the handler *)

Lemma filterM_validate_run items h so lg :
  filterM (fun e => read (fun h => validate_event h e)) items (State h so lg) =
  (if forallb (is_dict h) items then Returns (accepted h items)
   else Raises AttributeError, State h so lg).
Proof.
  induction items as [|x items IH]; [done|].
  cbn [filterM forallb]. unfold bind at 1. unfold read at 1. cbn [st_heap].
  rewrite validate_event_run. destruct (is_dict h x); [|done].
  unfold bind at 1. rewrite IH. cbn [andb].
  destruct (forallb (is_dict h) items); [|done].
  unfold ret, accepted. rewrite filter_cons.
  destruct (accepted_by h x) eqn:Hx.
  - by rewrite decide_True by exact I.
  - by rewrite decide_False by (intros []).
Qed.

Lemma named_str h e n : getitem h e "name" = Returns (VStr n) → named h e = true.
Proof.
  intros H. unfold named, name_of. rewrite H. apply bool_decide_true. by eexists.
Qed.

Lemma named_not_str h e v :
  getitem h e "name" = Returns v → (∀ n, v ≠ VStr n) → named h e = false.
Proof.
  intros H Hv. unfold named, name_of. rewrite H. apply bool_decide_false.
  destruct v; try (by intros [? ?]). by destruct (Hv s).
Qed.

Lemma mapM_add_type_run evs h so lg :
  Forall (fun e => has_key h e "name") evs →
  mapM add_type evs (State h so lg) =
  (if bool_decide (named_prefix h evs = evs) then Returns evs
   else Raises AttributeError,
   State (decorate_all h (named_prefix h evs)) so lg).
Proof.
  revert h. induction evs as [|e evs IH]; intros h Hk; [done|].
  apply Forall_cons in Hk as [He Hk].
  cbn [mapM named_prefix]. unfold bind at 1. rewrite add_type_run.
  unfold has_key in He.
  destruct (getitem h e "name") as [v|x] eqn:Hname; [|done].
  assert ((∃ n, v = VStr n) ∨ ¬ (∃ n, v = VStr n)) as [[n ->]|Hv]
    by (destruct v; eauto; right; by intros [? ?]).
  - rewrite (named_str h e n Hname).
    unfold bind at 1. rewrite IH.
    + rewrite named_prefix_decorate, decorate_all_cons. unfold ret.
      destruct (decide (named_prefix h evs = evs)) as [Heq|Hne].
      * by rewrite !bool_decide_true by congruence.
      * by rewrite !bool_decide_false by congruence.
    + eapply Forall_impl; [done|]. intros x. simpl.
      by rewrite has_key_decorate_ne.
  - rewrite (named_not_str h e v Hname) by (intros n ->; apply Hv; eauto).
    rewrite bool_decide_false by done.
    destruct v; try done. destruct Hv; eauto.
Qed.

(** ** Grouping *)

Lemma filter_ext_Forall {A} (P Q : A → Prop)
  `{!∀ x, Decision (P x)} `{!∀ x, Decision (Q x)} (l : list A) :
  Forall (fun x => P x ↔ Q x) l → filter P l = filter Q l.
Proof.
  induction 1 as [|x l Hx _ IH]; [done|].
  rewrite !filter_cons, IH. destruct (decide (P x)), (decide (Q x)); tauto.
Qed.

Lemma place_event_run h e groups v :
  getitem h e "event_type" = Returns v →
  place_event h e groups =
  Returns (map (fun g => if py_eq_str v (event_type g)
                         then Group (event_type g) (events g ++ [e])
                         else g) groups).
Proof.
  intros Hv. induction groups as [|g gs IH]; [done|].
  cbn [place_event map]. rewrite Hv, IH. done.
Qed.

Lemma place_events_run h evs groups :
  Forall (fun e => has_key h e "event_type") evs →
  place_events h evs groups =
  Returns (map (fun g => Group (event_type g)
                  (events g ++ filter (fun e => matches h (event_type g) e) evs))
               groups).
Proof.
  intros Hk. revert groups. induction Hk as [|e evs He _ IH]; intros groups.
  - simpl. f_equal. induction groups as [|[t es] gs IHg]; [done|].
    simpl. rewrite app_nil_r. by f_equal.
  - unfold has_key in He.
    destruct (getitem h e "event_type") as [v|] eqn:Hv; [|done].
    cbn [place_events]. rewrite (place_event_run h e groups v Hv).
    cbn [obind]. rewrite IH, map_map. f_equal.
    apply map_ext. intros [t es]. rewrite filter_cons.
    cbn [event_type events].
    assert (matches h t e = py_eq_str v t) as ->
      by (unfold matches; by rewrite Hv).
    destruct (py_eq_str v t); cbn [event_type events].
    + rewrite decide_True by exact I. by rewrite <-app_assoc.
    + by rewrite decide_False by (intros []).
Qed.

(** The result of [add_events_to_group]: one group per entry of
    [event_types], in that order, holding the events whose type equals the
    entry, in the order of [events]. *)
Lemma add_events_to_group_run h evs event_types :
  Forall (fun e => has_key h e "event_type") evs →
  add_events_to_group h evs event_types =
  Returns (map (fun t => Group t (filter (fun e => matches h t e) evs)) event_types).
Proof.
  intros Hk. unfold add_events_to_group.
  by rewrite place_events_run, map_map.
Qed.

Lemma decorated_has_type h e : decorated h e → has_key h e "event_type".
Proof. intros (t & _ & Ht). unfold has_key. by rewrite Ht. Qed.

Lemma decorated_matches h e t :
  decorated h e → matches h t e ↔ category_of h e = Some t.
Proof.
  intros (t' & Hc & Ht). unfold matches. rewrite Ht, Hc. simpl.
  destruct (String.eqb_spec t' t) as [->|Hne]; split; try done.
  by intros [= ->].
Qed.

Lemma names_run W h so lg :
  Forall (decorated h) W →
  mapM (fun e => read (fun h =>
          let? v := getitem h e "event_type" in type_name_of v)) W
       (State h so lg) =
  (Returns (categories h W), State h so lg).
Proof.
  induction 1 as [|e W (t & Hc & Ht) _ IH]; [done|].
  cbn [mapM]. unfold bind at 1. unfold read at 1. cbn [st_heap].
  rewrite Ht. cbn [obind type_name_of]. unfold bind at 1. rewrite IH.
  unfold ret, categories. simpl. by rewrite Hc.
Qed.

Lemma group_by_type_run order W h so lg :
  Forall (decorated h) W →
  group_by_type order W (State h so lg) =
  (Returns (map (fun t => Group t (filter (fun e => category_of h e = Some t) W))
                (order (categories h W))),
   State h so lg).
Proof.
  intros HW. unfold group_by_type, bind. rewrite names_run by done.
  unfold read. cbn [st_heap]. rewrite add_events_to_group_run.
  - do 2 f_equal. apply map_ext. intros t. f_equal.
    apply filter_ext_Forall. eapply Forall_impl; [done|].
    intros e He. by apply decorated_matches.
  - eapply Forall_impl; [done|]. apply decorated_has_type.
Qed.

(** ** The handler, stage by stage *)

Lemma accepted_has_name h items :
  Forall (fun e => has_key h e "name") (accepted h items).
Proof.
  apply Forall_forall. intros e [He _]%list_elem_of_filter.
  unfold accepted_by in He. by apply andb_True in He as [? _].
Qed.

Lemma lambda_handler_groups_unfold order event h so lg :
  lambda_handler_groups order event (State h so lg) =
  match getitem h event "events" with
  | Raises x => (Raises x, State h so lg)
  | Returns evs =>
      match iterate h evs with
      | Raises x => (Raises x, State h so lg)
      | Returns items =>
          if forallb (is_dict h) items then
            match mapM add_type (accepted h items)
                    (State h so (lg ++ warning h items)) with
            | (Returns W, s') => group_by_type order W s'
            | (Raises x, s') => (Raises x, s')
            end
          else (Raises AttributeError, State h so lg)
      end
  end.
Proof.
  unfold lambda_handler_groups. unfold bind at 1. unfold read at 1.
  cbn [st_heap]. destruct (getitem h event "events") as [evs|x]; [|done].
  unfold bind at 1. unfold read at 1. cbn [st_heap].
  destruct (iterate h evs) as [items|x]; [|done].
  unfold bind at 1. rewrite filterM_validate_run.
  destruct (forallb (is_dict h) items); [|done].
  unfold bind at 1. unfold warning.
  destruct (bool_decide (length (accepted h items) ≠ length items)).
  - unfold logger. cbn [st_heap st_stdout st_log]. by unfold bind.
  - unfold ret at 1. rewrite app_nil_r. by unfold bind.
Qed.

Lemma categories_decorate_all h xs evs :
  categories (decorate_all h xs) evs = categories h evs.
Proof.
  unfold categories. apply list_omap_ext, Forall2_same_length_lookup.
  split; [done|]. intros i x y Hx Hy. rewrite Hx in Hy. injection Hy as <-.
  apply category_of_decorate_all.
Qed.

(** The run of lines 104-113 on a batch whose elements are all
    dictionaries: the accepted records are decorated one after the other;
    a name that is not a string stops the run. *)
Lemma lambda_handler_groups_run order event h so lg evs items :
  getitem h event "events" = Returns evs →
  iterate h evs = Returns items →
  forallb (is_dict h) items = true →
  lambda_handler_groups order event (State h so lg) =
  (if bool_decide (named_prefix h (accepted h items) = accepted h items)
   then Returns (expected_groups order h items)
   else Raises AttributeError,
   State (decorate_all h (named_prefix h (accepted h items))) so
         (lg ++ warning h items)).
Proof.
  intros Hev Hit Hd. rewrite lambda_handler_groups_unfold, Hev, Hit, Hd.
  rewrite mapM_add_type_run by apply accepted_has_name.
  case_bool_decide as Hp; [|done].
  rewrite Hp, group_by_type_run.
  - rewrite categories_decorate_all. unfold expected_groups.
    do 2 f_equal. apply map_ext. intros t. f_equal.
    apply list_filter_iff. intros e. by rewrite category_of_decorate_all.
  - apply decorate_all_decorated. rewrite <-Hp. apply named_prefix_named.
Qed.

(** The printing loop stops at the first group that cannot be written. *)
Lemma forM_print_run write_ok groups h so lg :
  forM_ (print write_ok) groups (State h so lg) =
  (if all_written write_ok h groups then Returns tt else Raises OSError,
   State h (so ++ map (fun g => Printed g h) (written_prefix write_ok h groups)) lg).
Proof.
  revert so. induction groups as [|g gs IH]; intros so.
  - simpl. by rewrite app_nil_r.
  - cbn [forM_ written_prefix all_written forallb]. unfold bind at 1.
    unfold print at 1. cbn [st_heap st_stdout st_log].
    destruct (write_ok g h); cbn [andb].
    + rewrite IH. cbn [map]. by rewrite <-app_assoc.
    + simpl. by rewrite app_nil_r.
Qed.

Lemma written_prefix_all write_ok h groups :
  all_written write_ok h groups = true → written_prefix write_ok h groups = groups.
Proof.
  induction groups as [|g gs IH]; [done|].
  cbn [all_written forallb written_prefix]. intros [Hg Hgs]%andb_prop.
  rewrite Hg. f_equal. by apply IH.
Qed.

Lemma lambda_handler_unfold order write_ok event context s :
  lambda_handler order write_ok event context s =
  match lambda_handler_groups order event s with
  | (Returns groups, State h so lg) =>
      if all_written write_ok h groups
      then (processed,
            State h (so ++ map (fun g => Printed g h) groups) lg)
      else (unexpected,
            State h (so ++ map (fun g => Printed g h) (written_prefix write_ok h groups))
                  (lg ++ [LogError "An unexpected error occurred" OSError]))
  | (Raises (KeyError k), State h so lg) =>
      (missing_key,
       State h so (lg ++ [LogError "Missing key in event data" (KeyError k)]))
  | (Raises e, State h so lg) =>
      (unexpected, State h so (lg ++ [LogError "An unexpected error occurred" e]))
  end.
Proof.
  unfold lambda_handler. unfold bind at 1.
  destruct (lambda_handler_groups order event s) as [[groups|e] [h so lg]].
  - unfold bind at 1. rewrite forM_print_run.
    destruct (all_written write_ok h groups) eqn:Hall; [|done].
    unfold ret. by rewrite written_prefix_all.
  - by destruct e.
Qed.

(** * The claims *)

(** ** Validation *)

(** C2, as stated, fails: a record that has both a [name] and an [id] key
    is not accepted, because the second required key is [event_id]. *)
Lemma validate_event_ignores_id :
  let d := [("name", VStr "order:placed"); ("id", VInt 8)] in
  ("name" ∈ dict_keys d ∧ "id" ∈ dict_keys d) ∧
  validate_event [ODict d] (VRef 0) = Returns false.
Proof.
  simpl. split; [|done]. split.
  - apply list_elem_of_here.
  - apply list_elem_of_further, list_elem_of_here.
Qed.

(** C2, amended: a record (a dictionary) is accepted if and only if both
    the [name] key and the [event_id] key are present in it; only the keys
    are looked at, never the values bound to them. *)
Theorem validate_event_accepts_iff (h : heap) (l : loc) (d : dict) :
  h !! l = Some (ODict d) →
  ∃ b, validate_event h (VRef l) = Returns b ∧
       (b = true ↔ "name" ∈ dict_keys d ∧ "event_id" ∈ dict_keys d).
Proof.
  intros Hl. exists (accepted_by h (VRef l)).
  split; [by eapply validate_event_dict|].
  unfold accepted_by. rewrite !(has_key_dict h l d) by done.
  rewrite andb_true_iff, !bool_decide_eq_true. done.
Qed.

(** An empty name and a zero identifier are accepted. *)
Lemma validate_event_accepts_iff_witness :
  ∃ b, validate_event [ODict [("name", VStr ""); ("event_id", VInt 0)]] (VRef 0)
       = Returns b ∧
       (b = true ↔
        "name" ∈ dict_keys [("name", VStr ""); ("event_id", VInt 0)] ∧
        "event_id" ∈ dict_keys [("name", VStr ""); ("event_id", VInt 0)]).
Proof.
  apply (validate_event_accepts_iff
           [ODict [("name", VStr ""); ("event_id", VInt 0)]] 0).
  reflexivity.
Defined.

(** ** Classification *)

(** C4: for an accepted record whose name is a string, [add_type] returns
    and stores under [event_type] the category of the name: the part
    before the first [":"], or the whole name when it has no [":"]. *)
Theorem add_type_category (h : heap) (e : pyval) (n : string)
  (so : list printed) (lg : list log_entry) :
  validate_event h e = Returns true →
  getitem h e "name" = Returns (VStr n) →
  ∃ h', add_type e (State h so lg) = (Returns e, State h' so lg) ∧
        getitem h' e "event_type" = Returns (VStr (category n)) ∧
        category n = match index 0 ":" n with
                     | Some i => substring 0 i n
                     | None => n
                     end.
Proof.
  intros _ Hn. exists (decorate h e). rewrite add_type_run, Hn.
  split; [done|]. split; [|done].
  apply decorate_decorated. apply category_of_Some. eauto.
Qed.

(** Scenario D, and a name with two separators. *)
Lemma add_type_category_witness :
  (∃ h', add_type (VRef 0)
           (State [ODict [("name", VStr "standalone"); ("event_id", VInt 2)]] [] [])
         = (Returns (VRef 0), State h' [] []) ∧
         getitem h' (VRef 0) "event_type" = Returns (VStr (category "standalone")) ∧
         category "standalone" = "standalone") ∧
  category "a:b:c" = "a".
Proof.
  split; [|reflexivity].
  apply (add_type_category
           [ODict [("name", VStr "standalone"); ("event_id", VInt 2)]]
           (VRef 0) "standalone" [] []); reflexivity.
Defined.

(** ** Grouping *)





(** ** The result of the handler *)

(** C9: whatever it is given, the handler raises nothing and returns one
    of its three messages. *)
Theorem lambda_handler_returns_message
  (order : list string -> list string) (write_ok : group -> heap -> bool)
  (event context : pyval) (s : state) :
  fst (lambda_handler order write_ok event context s) = "events processed" ∨
  fst (lambda_handler order write_ok event context s)
    = "Error: Missing key in event data" ∨
  fst (lambda_handler order write_ok event context s)
    = "Error: An unexpected error occurred".
Proof.
  rewrite lambda_handler_unfold.
  destruct (lambda_handler_groups order event s) as [[groups|e] [h so lg]].
  - destruct (all_written write_ok h groups); auto.
  - destruct e; auto.
Qed.

(** ** What each stage does to the records *)

Lemma mapM_read_state {A B} (f : A → heap → outcome B) l s :
  snd (mapM (fun e => read (f e)) l s) = s.
Proof.
  induction l as [|x l IH]; [done|].
  cbn [mapM]. unfold bind at 1. unfold read at 1.
  destruct (f x (st_heap s)); [|done].
  unfold bind at 1. destruct (mapM _ l s) as [[ys|e] s'] eqn:Hm; simpl in *.
  - by rewrite <-IH.
  - by rewrite <-IH.
Qed.

Lemma place_event_Returns h e groups G :
  place_event h e groups = Returns G →
  G = map (fun g => if matches h (event_type g) e
                    then Group (event_type g) (events g ++ [e])
                    else g) groups.
Proof.
  destruct groups as [|g gs]; [by intros [= <-]|].
  destruct (getitem h e "event_type") as [v|x] eqn:Hv.
  - rewrite (place_event_run h e _ v Hv). intros [= <-].
    unfold matches. by rewrite Hv.
  - cbn [place_event]. by rewrite Hv.
Qed.

Lemma place_events_Returns h evs groups G :
  place_events h evs groups = Returns G →
  G = map (fun g => Group (event_type g)
             (events g ++ filter (fun e => matches h (event_type g) e) evs))
          groups.
Proof.
  revert groups. induction evs as [|e evs IH]; intros groups.
  - intros [= <-]. induction groups as [|[t es] gs IHg]; [done|].
    simpl. rewrite app_nil_r. by f_equal.
  - cbn [place_events].
    destruct (place_event h e groups) as [G1|x] eqn:H1; [|done].
    apply place_event_Returns in H1 as ->. cbn [obind].
    intros ->%IH. rewrite map_map. apply map_ext. intros [t es].
    rewrite filter_cons. cbn [event_type events].
    destruct (matches h t e); cbn [event_type events].
    + rewrite decide_True by exact I. by rewrite <-app_assoc.
    + by rewrite decide_False by (intros []).
Qed.

(** C8, as stated, fails: [add_type] does not build a new record, it
    writes the [event_type] key into the dictionary it was handed and
    returns that same dictionary. *)
Lemma add_type_updates_in_place :
  let h := [ODict [("name", VStr "user:created"); ("event_id", VInt 1)]] in
  add_type (VRef 0) (initial h)
  = (Returns (VRef 0),
     initial [ODict [("name", VStr "user:created"); ("event_id", VInt 1);
                     ("event_type", VStr "user")]]) ∧
  st_heap (snd (add_type (VRef 0) (initial h))) !! 0 ≠ h !! 0.
Proof. split; [reflexivity|discriminate]. Qed.

(** C8, amended: validation and grouping leave every object unchanged, and
    the groups refer to the records they were given; classification
    updates the record it is handed in place: it writes nothing but the
    [event_type] key of that one dictionary and returns the same
    reference. *)
Theorem stages_effect_on_records :
  (∀ items s,
     snd (filterM (fun e => read (fun h => validate_event h e)) items s) = s) ∧
  (∀ e h so lg r s',
     add_type e (State h so lg) = (r, s') →
     st_stdout s' = so ∧
     (∀ l, e ≠ VRef l → st_heap s' !! l = h !! l) ∧
     (∀ x k, k ≠ "event_type" → getitem (st_heap s') x k = getitem h x k) ∧
     (∀ e', r = Returns e' → e' = e ∧ decorated (st_heap s') e)) ∧
  (∀ order W s r s',
     group_by_type order W s = (r, s') →
     s' = s ∧
     ∀ groups, r = Returns groups →
       Forall (fun g => ∀ x, x ∈ events g → x ∈ W) groups).
Proof.
  split; [|split].
  - intros items [h so lg]. by rewrite filterM_validate_run.
  - intros e h so lg r s'. rewrite add_type_run.
    destruct (getitem h e "name") as [v|x] eqn:Hn.
    + destruct v as [| | | |n|]; intros [= <- <-]; cbn [st_heap st_stdout];
        try (repeat split; done).
      split; [done|]. split; [|split].
      * intros l Hl. rewrite decorate_lookup.
        destruct (h !! l) as [[d|xs]|]; try done.
        destruct (category_of h e); [|done]. by rewrite decide_False.
      * intros x k Hk. by apply getitem_decorate_ne.
      * intros e' [= <-]. split; [done|].
        exists (category n). rewrite category_of_decorate.
        assert (category_of h e = Some (category n)) as Hc
          by (apply category_of_Some; eauto).
        split; [done|]. by apply decorate_decorated.
    + destruct x; intros [= <- <-]; cbn [st_heap st_stdout];
        repeat split; done.
  - intros order W s r s' Hrun. unfold group_by_type in Hrun.
    unfold bind at 1 in Hrun.
    pose proof (mapM_read_state
      (fun e h => let? v := getitem h e "event_type" in type_name_of v) W s) as Hs.
    destruct (mapM _ W s) as [[names|x] s1]; simpl in Hs; subst s1.
    + unfold read in Hrun. injection Hrun as <- <-. split; [done|].
      intros groups Hg. apply place_events_Returns in Hg as ->.
      apply Forall_forall. intros g (g0 & -> & (t & -> & _)%list_elem_of_fmap)%list_elem_of_fmap.
      intros x. cbn [events group_dict app]. by intros [_ ?]%list_elem_of_filter.
    + by injection Hrun as <- <-.
Qed.

(** The three stages on the first record of the module's [invalid_event]. *)
Lemma stages_effect_on_records_witness :
  let h := batch_heap invalid_event in
  snd (filterM (fun e => read (fun h => validate_event h e))
         [VRef 2; VRef 3] (initial h)) = initial h ∧
  (∀ l, VRef 2 ≠ VRef l →
        st_heap (snd (add_type (VRef 2) (initial h))) !! l = h !! l) ∧
  decorated (st_heap (snd (add_type (VRef 2) (initial h)))) (VRef 2).
Proof.
  intros h. destruct stages_effect_on_records as (Hv & Ha & _).
  split; [apply Hv|].
  destruct (Ha (VRef 2) h [] [] _ _ eq_refl) as (_ & Hl & _ & Hr).
  split; [exact Hl|]. by destruct (Hr (VRef 2) eq_refl).
Defined.

(** ** Malformed records *)

Lemma forallb_is_dict_false h items e :
  e ∈ items → is_dict h e = false → forallb (is_dict h) items = false.
Proof.
  intros He Hd. apply not_true_is_false. intros Hall.
  rewrite forallb_forall in Hall. apply list_elem_of_In in He.
  by rewrite (Hall e He) in Hd.
Qed.

Lemma named_prefix_neq h evs e :
  e ∈ evs → named h e = false → named_prefix h evs ≠ evs.
Proof.
  intros He Hn Heq. pose proof (named_prefix_named h evs) as Hall.
  rewrite Heq in Hall. rewrite Forall_forall in Hall.
  specialize (Hall e He). by rewrite Hn in Hall.
Qed.

(** C5, as stated, fails: a record that is not a mapping makes
    [validate_event] raise, a name that is not a string makes [add_type]
    raise, and in the handler the exception ends the whole batch: nothing
    is printed and the only trace is the error string and the log. *)
Lemma malformed_record_raises :
  validate_event [] (VInt 5) = Raises AttributeError ∧
  fst (add_type (VRef 0) (initial [ODict [("name", VInt 5); ("event_id", VInt 1)]]))
  = Raises AttributeError ∧
  observe (lambda_handler first_seen_order always_ok (VRef 0) VNone
             (initial [ODict [("events", VRef 1)]; OList [VInt 5]]))
  = ("Error: An unexpected error occurred", [],
     [LogError "An unexpected error occurred" AttributeError]).
Proof. repeat split. Qed.

(** C5, amended: a record that is not a mapping makes [validate_event]
    raise [AttributeError], and an accepted record whose name is not a
    string makes [add_type] raise [AttributeError]; the handler catches
    either one at the level of the whole batch: it prints no group, logs
    the error and returns "Error: An unexpected error occurred". *)
Theorem malformed_record_aborts_batch
  (order : list string -> list string) (write_ok : group -> heap -> bool)
  (event context : pyval) (h : heap) (so : list printed) (lg : list log_entry)
  (evs : pyval) (items : list pyval) (e : pyval) :
  getitem h event "events" = Returns evs →
  iterate h evs = Returns items →
  e ∈ items →
  is_dict h e = false ∨ (accepted_by h e = true ∧ named h e = false) →
  (is_dict h e = false → validate_event h e = Raises AttributeError) ∧
  (accepted_by h e = true → named h e = false →
   add_type e (State h so lg) = (Raises AttributeError, State h so lg)) ∧
  ∃ s', lambda_handler order write_ok event context (State h so lg)
        = ("Error: An unexpected error occurred", s') ∧
        st_stdout s' = so ∧
        last (st_log s')
        = Some (LogError "An unexpected error occurred" AttributeError).
Proof.
  intros Hev Hit He Hbad. split; [|split].
  - intros Hd. by rewrite validate_event_run, Hd.
  - intros Ha Hn. rewrite add_type_run.
    unfold accepted_by, has_key in Ha. unfold named, name_of in Hn.
    destruct (getitem h e "name") as [v|x]; [|done].
    by destruct v.
  - rewrite lambda_handler_unfold.
    destruct (forallb (is_dict h) items) eqn:Hall.
    + destruct Hbad as [Hd|[Ha Hn]];
        [by rewrite (forallb_is_dict_false h items e) in Hall|].
      rewrite (lambda_handler_groups_run order event h so lg evs items) by done.
      rewrite bool_decide_false.
      * eexists. split; [done|]. split; [done|]. cbn [st_log].
        by rewrite last_snoc.
      * apply (named_prefix_neq h _ e); [|done].
        apply list_elem_of_filter. split; [by rewrite Ha|done].
    + rewrite lambda_handler_groups_unfold, Hev, Hit, Hall.
      eexists. split; [done|]. split; [done|]. cbn [st_log].
      by rewrite last_snoc.
Qed.

(** A batch whose second record has the number 5 as its name. *)
Lemma malformed_record_aborts_batch_witness :
  let h := batch_heap [[("name", VStr "user:created"); ("event_id", VInt 1)];
                       [("name", VInt 5); ("event_id", VInt 2)]] in
  ∃ s', lambda_handler first_seen_order always_ok (VRef 0) VNone (State h [] [])
        = ("Error: An unexpected error occurred", s') ∧
        st_stdout s' = [] ∧
        last (st_log s')
        = Some (LogError "An unexpected error occurred" AttributeError).
Proof.
  intros h.
  refine (proj2 (proj2 (malformed_record_aborts_batch first_seen_order always_ok
    (VRef 0) VNone h [] [] (VRef 1) [VRef 2; VRef 3] (VRef 3) _ _ _ _))).
  - reflexivity.
  - reflexivity.
  - apply list_elem_of_further, list_elem_of_here.
  - right. split; reflexivity.
Defined.

(** ** One failure and the rest of the batch *)

(** C1, as stated, fails: the module's [new_event] gives two groups; when
    processing fails on the first one only, the second one is never
    processed, and what comes back is a single error string. *)
Lemma failed_group_stops_the_batch :
  let s := initial (batch_heap new_event) in
  let groups := [Group "user" [VRef 2; VRef 6];
                 Group "order" [VRef 3; VRef 4; VRef 5]] in
  fst (lambda_handler_groups first_seen_order (VRef 0) s) = Returns groups ∧
  map (fun g => fails_on "user" g []) groups = [false; true] ∧
  observe (lambda_handler first_seen_order (fails_on "user") (VRef 0) VNone s)
  = ("Error: An unexpected error occurred", [],
     [LogError "An unexpected error occurred" OSError]).
Proof. repeat split. Qed.

(** C1, amended: the handler processes the groups one after the other
    inside a single [try]: the groups before the first failing one are
    processed, that one and the groups after it are not, and the failure is
    logged and answered with the one string "Error: An unexpected error
    occurred"; when no group fails, all of them are processed, in order,
    and the answer is "events processed". *)
Theorem groups_processed_until_failure
  (order : list string -> list string) (write_ok : group -> heap -> bool)
  (event context : pyval) (s : state)
  (groups : list group) (h : heap) (so : list printed) (lg : list log_entry) :
  lambda_handler_groups order event s = (Returns groups, State h so lg) →
  lambda_handler order write_ok event context s =
  (if all_written write_ok h groups
   then "events processed" else "Error: An unexpected error occurred",
   State h
     (so ++ map (fun g => Printed g h) (written_prefix write_ok h groups))
     (lg ++ if all_written write_ok h groups then []
            else [LogError "An unexpected error occurred" OSError])).
Proof.
  intros Hg. rewrite lambda_handler_unfold, Hg.
  destruct (all_written write_ok h groups) eqn:Hall; [|done].
  by rewrite written_prefix_all, app_nil_r.
Qed.

(** Three groups, the second of which cannot be written: only the first
    one reaches standard output. *)
Lemma groups_processed_until_failure_witness :
  let s := initial (batch_heap event) in
  ∃ h,
    st_heap (snd (lambda_handler_groups first_seen_order (VRef 0) s)) = h ∧
    observe (lambda_handler first_seen_order (fails_on "account") (VRef 0) VNone s)
    = ("Error: An unexpected error occurred",
       [Printed (Group "user" [VRef 2; VRef 3; VRef 7]) h],
       [LogError "An unexpected error occurred" OSError]).
Proof.
  intros s. eexists. split; [reflexivity|].
  rewrite (groups_processed_until_failure first_seen_order (fails_on "account")
             (VRef 0) VNone s _ _ _ _ eq_refl).
  reflexivity.
Defined.

(** ** Accepted and rejected records *)

Lemma accepted_rejected_length h items :
  length (accepted h items) + length (rejected h items) = length items.
Proof.
  unfold accepted, rejected. induction items as [|x items IH]; [done|].
  rewrite !filter_cons.
  destruct (decide (accepted_by h x)) as [Hx|Hx].
  - rewrite decide_False by tauto. simpl. lia.
  - rewrite decide_True by done. simpl. lia.
Qed.

Lemma warning_nil_iff h items : warning h items = [] ↔ rejected h items = [].
Proof.
  unfold warning. pose proof (accepted_rejected_length h items) as Hlen.
  case_bool_decide as Hne; split; try done.
  - intros Hr. rewrite Hr in Hlen. simpl in Hlen. lia.
  - intros _. apply nil_length_inv. lia.
Qed.

(** C3, as stated, fails in its second half: the rejected records are
    dropped.  Two batches that differ in the record they have rejected
    are answered in the same way: same string, same output, same log. *)
Lemma rejected_records_not_reported :
  let h1 := batch_heap [[("name", VStr "order:placed")]] in
  let h2 := batch_heap [[("event_id", VInt 10)]] in
  observe (lambda_handler first_seen_order always_ok (VRef 0) VNone (initial h1))
  = observe (lambda_handler first_seen_order always_ok (VRef 0) VNone (initial h2)) ∧
  map (contents h1) (rejected h1 [VRef 2]) = [Some (ODict [("name", VStr "order:placed")])] ∧
  map (contents h2) (rejected h2 [VRef 2]) = [Some (ODict [("event_id", VInt 10)])].
Proof. repeat split. Qed.

(** C3, amended: on a batch of mappings the validation step keeps the
    records that have both keys and excludes the others, without loss or
    duplication: kept plus excluded is the batch size.  The excluded
    records are not handed back: the handler goes on with the kept ones
    only, and logs one fixed warning when at least one was excluded. *)
Theorem validation_partitions_batch
  (order : list string -> list string) (event : pyval)
  (h : heap) (so : list printed) (lg : list log_entry)
  (evs : pyval) (items : list pyval) :
  getitem h event "events" = Returns evs →
  iterate h evs = Returns items →
  forallb (is_dict h) items = true →
  length (accepted h items) + length (rejected h items) = length items ∧
  filterM (fun e => read (fun h => validate_event h e)) items (State h so lg)
  = (Returns (accepted h items), State h so lg) ∧
  (∃ r h', lambda_handler_groups order event (State h so lg)
           = (r, State h' so (lg ++ warning h items)) ∧
           ∀ groups, r = Returns groups →
             Forall (fun g => ∀ x, x ∈ events g → x ∈ accepted h items) groups) ∧
  (warning h items = [] ↔ rejected h items = []).
Proof.
  intros Hev Hit Hall. split; [apply accepted_rejected_length|].
  split; [by rewrite filterM_validate_run, Hall|].
  split; [|apply warning_nil_iff].
  rewrite (lambda_handler_groups_run order event h so lg evs items) by done.
  do 2 eexists. split; [done|]. intros groups Hg.
  case_bool_decide; [|done]. injection Hg as <-.
  apply Forall_forall. intros g (t & -> & _)%list_elem_of_fmap x.
  cbn [events]. by intros [_ ?]%list_elem_of_filter.
Qed.

(** The module's [invalid_event]: three records kept, two excluded. *)
Lemma validation_partitions_batch_witness :
  let h := batch_heap invalid_event in
  let items := [VRef 2; VRef 3; VRef 4; VRef 5; VRef 6] in
  length (accepted h items) + length (rejected h items) = 5 ∧
  accepted h items = [VRef 2; VRef 4; VRef 6] ∧
  rejected h items = [VRef 3; VRef 5] ∧
  warning h items ≠ [].
Proof.
  intros h items.
  destruct (validation_partitions_batch first_seen_order (VRef 0) h [] []
              (VRef 1) items eq_refl eq_refl eq_refl) as (Hlen & _ & _ & _).
  split; [exact Hlen|]. repeat split. discriminate.
Defined.

(** ** The order of the groups *)

Lemma first_seen_elem x l : x ∈ first_seen l ↔ x ∈ l.
Proof.
  induction l as [|y l IH]; [done|]. cbn [first_seen].
  rewrite !elem_of_cons, list_elem_of_filter, IH.
  destruct (decide (x = y)); tauto.
Qed.

Lemma first_seen_NoDup l : NoDup (first_seen l).
Proof.
  induction l as [|y l IH]; [constructor|]. cbn [first_seen].
  constructor; [|by apply NoDup_filter].
  by intros [? _]%list_elem_of_filter.
Qed.


Lemma last_seen_set_order : set_order last_seen_order.
Proof.
  intros l. unfold last_seen_order. split.
  - rewrite reverse_Permutation. apply first_seen_NoDup.
  - intros x. rewrite elem_of_reverse. apply first_seen_elem.
Qed.

(** C6, as stated, fails in its first half: the groups follow the
    iteration order of the set of types, and a set may list ["order"]
    before ["user"] although ["user"] is seen first in the batch. *)
Lemma groups_not_in_first_seen_order :
  let h := batch_heap new_event in
  let items := [VRef 2; VRef 3; VRef 4; VRef 5; VRef 6] in
  set_order last_seen_order ∧
  fst (lambda_handler_groups last_seen_order (VRef 0) (initial h))
  = Returns [Group "order" [VRef 3; VRef 4; VRef 5];
             Group "user" [VRef 2; VRef 6]] ∧
  first_seen (categories h (accepted h items)) = ["user"; "order"].
Proof. split; [apply last_seen_set_order|]. split; reflexivity. Qed.

(** C6, amended: the grouping stage returns one group per distinct
    category, in the order in which the set of categories is iterated (a
    permutation of the first-seen order, not necessarily that order), and
    within each group the records appear in their original relative order
    from the input batch. *)
Theorem groups_order
  (order : list string -> list string) (event : pyval)
  (h : heap) (so : list printed) (lg : list log_entry)
  (evs : pyval) (items : list pyval) :
  set_order order →
  getitem h event "events" = Returns evs →
  iterate h evs = Returns items →
  forallb (is_dict h) items = true →
  Forall (fun e => named h e) (accepted h items) →
  ∃ groups s',
    lambda_handler_groups order event (State h so lg) = (Returns groups, s') ∧
    map event_type groups ≡ₚ first_seen (categories h (accepted h items)) ∧
    Forall (fun g => events g
                     = filter (fun e => category_of h e = Some (event_type g))
                              (filter (fun e => accepted_by h e) items))
           groups.
Proof.
  intros Hord Hev Hit Hall Hnamed.
  rewrite (lambda_handler_groups_run order event h so lg evs items) by done.
  rewrite bool_decide_true by by apply named_prefix_all.
  do 2 eexists. split; [done|]. split.
  - unfold expected_groups. rewrite map_map. cbn [event_type]. rewrite map_id.
    destruct (Hord (categories h (accepted h items))) as [Hnd Hin].
    apply NoDup_Permutation; [done|apply first_seen_NoDup|].
    intros x. by rewrite Hin, first_seen_elem.
  - apply Forall_forall. by intros g (t & -> & _)%list_elem_of_fmap.
Qed.

(** The module's [new_event] with a set that lists ["order"] first. *)
Lemma groups_order_witness :
  let h := batch_heap new_event in
  let items := [VRef 2; VRef 3; VRef 4; VRef 5; VRef 6] in
  ∃ groups s',
    lambda_handler_groups last_seen_order (VRef 0) (State h [] [])
    = (Returns groups, s') ∧
    map event_type groups ≡ₚ first_seen (categories h (accepted h items)) ∧
    Forall (fun g => events g
                     = filter (fun e => category_of h e = Some (event_type g))
                              (filter (fun e => accepted_by h e) items))
           groups.
Proof.
  intros h items.
  apply (groups_order last_seen_order (VRef 0) h [] [] (VRef 1) items).
  - apply last_seen_set_order.
  - reflexivity.
  - reflexivity.
  - reflexivity.
  - repeat constructor.
Defined.

(** ** Running the handler a second time *)












(** * Further properties of the module *)

(** ** Every run of lines 104-113 *)

(** The four ways the first part of the handler can end. *)
Lemma lambda_handler_groups_total order event h so lg :
  lambda_handler_groups order event (State h so lg) =
  match getitem h event "events" with
  | Raises x => (Raises x, State h so lg)
  | Returns evs =>
      match iterate h evs with
      | Raises x => (Raises x, State h so lg)
      | Returns items =>
          if forallb (is_dict h) items then
            (if bool_decide (named_prefix h (accepted h items) = accepted h items)
             then Returns (expected_groups order h items)
             else Raises AttributeError,
             State (decorate_all h (named_prefix h (accepted h items))) so
                   (lg ++ warning h items))
          else (Raises AttributeError, State h so lg)
      end
  end.
Proof.
  destruct (getitem h event "events") as [evs|x] eqn:Hev.
  - destruct (iterate h evs) as [items|x] eqn:Hit.
    + destruct (forallb (is_dict h) items) eqn:Hall.
      * by apply lambda_handler_groups_run with evs.
      * by rewrite lambda_handler_groups_unfold, Hev, Hit, Hall.
    + by rewrite lambda_handler_groups_unfold, Hev, Hit.
  - by rewrite lambda_handler_groups_unfold, Hev.
Qed.

Lemma getitem_KeyError h o k k' :
  getitem h o k = Raises (KeyError k') ↔
  k' = k ∧ is_dict h o = true ∧ has_key h o k = false.
Proof.
  unfold has_key, getitem, is_dict. destruct o as [| | | | |l];
    try (split; [done|by intros (_ & ? & _)]).
  destruct (h !! l) as [[d|xs]|];
    try (split; [done|by intros (_ & ? & _)]).
  destruct (dict_get k d); split; try done.
  - by intros (_ & _ & ?).
  - by intros [= ->].
  - by intros (-> & _).
Qed.

Lemma iterate_no_KeyError h evs k : iterate h evs ≠ Raises (KeyError k).
Proof.
  unfold iterate. destruct evs as [| | | | |l]; try done.
  by destruct (h !! l) as [[d|xs]|].
Qed.

Lemma named_prefix_eq_iff h evs :
  named_prefix h evs = evs ↔ Forall (fun e => named h e) evs.
Proof.
  split; [|apply named_prefix_all].
  intros <-. apply named_prefix_named.
Qed.

(** ** When the handler answers what *)

(** X1: the handler answers "Error: Missing key in event data" exactly
    when its input is a dictionary without the ["events"] key, whatever
    else the input holds; it has then changed nothing and printed nothing,
    and has logged that one error. *)
Theorem lambda_handler_missing_key
  (order : list string -> list string) (write_ok : group -> heap -> bool)
  (event context : pyval) (h : heap) (so : list printed) (lg : list log_entry) :
  (fst (lambda_handler order write_ok event context (State h so lg))
   = "Error: Missing key in event data"
   ↔ is_dict h event = true ∧ has_key h event "events" = false) ∧
  (is_dict h event = true ∧ has_key h event "events" = false →
   snd (lambda_handler order write_ok event context (State h so lg))
   = State h so (lg ++ [LogError "Missing key in event data" (KeyError "events")])).
Proof.
  rewrite lambda_handler_unfold, lambda_handler_groups_total.
  destruct (getitem h event "events") as [evs|x] eqn:Hev.
  - assert (¬ (is_dict h event = true ∧ has_key h event "events" = false)) as Hno.
    { intros [_ Hk]. unfold has_key in Hk. by rewrite Hev in Hk. }
    split; [|by intros ?]. split; [|by intros ?]. intros Hr. exfalso.
    destruct (iterate h evs) as [items|x] eqn:Hit.
    + destruct (forallb (is_dict h) items); [|done].
      case_bool_decide; [|done].
      by destruct (all_written write_ok _ _).
    + destruct x; try done. by apply iterate_no_KeyError in Hit.
  - destruct x as [k| | | |];
      try (split; [split; [done|]|];
           intros [Hd Hk];
           assert (getitem h event "events" = Raises (KeyError "events")) as Hx
             by (by apply getitem_KeyError);
           by rewrite Hev in Hx).
    apply getitem_KeyError in Hev as (-> & Hd & Hk). done.
Qed.

(** X2: the handler answers "events processed" exactly when the input has
    an iterable ["events"] whose elements are all dictionaries, every
    accepted record has a string for its name, and every group could be
    written. *)
Theorem lambda_handler_processed_iff
  (order : list string -> list string) (write_ok : group -> heap -> bool)
  (event context : pyval) (h : heap) (so : list printed) (lg : list log_entry) :
  fst (lambda_handler order write_ok event context (State h so lg))
  = "events processed"
  ↔ ∃ evs items,
      getitem h event "events" = Returns evs ∧
      iterate h evs = Returns items ∧
      forallb (is_dict h) items = true ∧
      Forall (fun e => named h e) (accepted h items) ∧
      all_written write_ok (decorate_all h (accepted h items))
        (expected_groups order h items) = true.
Proof.
  rewrite lambda_handler_unfold, lambda_handler_groups_total. split.
  - destruct (getitem h event "events") as [evs|x] eqn:Hev; [|by destruct x].
    destruct (iterate h evs) as [items|x] eqn:Hit; [|by destruct x].
    destruct (forallb (is_dict h) items) eqn:Hall; [|done].
    case_bool_decide as Hp; [|done].
    destruct (all_written _ _ _) eqn:Hw; [|done]. intros _.
    exists evs, items. rewrite Hp in Hw.
    split; [done|]. split; [done|]. split; [done|].
    split; [by apply named_prefix_eq_iff|done].
  - intros (evs & items & -> & -> & -> & Hn & Hw).
    apply named_prefix_eq_iff in Hn. rewrite bool_decide_true by done.
    by rewrite Hn, Hw.
Qed.

Lemma set_order_nil order : set_order order → order [] = [].
Proof.
  intros Hord. destruct (Hord []) as [_ Hin].
  destruct (order []) as [|x l]; [done|].
  pose proof (list_elem_of_here x l) as Hx. by apply Hin, elem_of_nil in Hx.
Qed.

(** X3: a batch without a single accepted record (an empty list, or
    records that all lack a required key) is not an error: the handler
    answers "events processed", prints no group and leaves the heap as it
    was; the only trace is the warning when records were excluded. *)
Theorem lambda_handler_nothing_accepted
  (order : list string -> list string) (write_ok : group -> heap -> bool)
  (event context : pyval) (h : heap) (so : list printed) (lg : list log_entry)
  (evs : pyval) (items : list pyval) :
  set_order order →
  getitem h event "events" = Returns evs →
  iterate h evs = Returns items →
  forallb (is_dict h) items = true →
  accepted h items = [] →
  lambda_handler order write_ok event context (State h so lg)
  = ("events processed", State h so (lg ++ warning h items)).
Proof.
  intros Hord Hev Hit Hall Hacc.
  rewrite lambda_handler_unfold, lambda_handler_groups_total, Hev, Hit, Hall.
  unfold expected_groups. rewrite Hacc. cbn [named_prefix decorate_all foldl].
  rewrite bool_decide_true by done.
  unfold categories. cbn [omap list_omap]. rewrite (set_order_nil order Hord).
  cbn [map all_written forallb]. by rewrite app_nil_r.
Qed.

(** The empty batch, and a batch of one record without [event_id]. *)
Lemma lambda_handler_nothing_accepted_witness :
  lambda_handler last_seen_order always_ok (VRef 0) VNone
    (State (batch_heap []) [] [])
  = ("events processed", State (batch_heap []) [] []) ∧
  lambda_handler last_seen_order always_ok (VRef 0) VNone
    (State (batch_heap [[("name", VStr "order:placed")]]) [] [])
  = ("events processed",
     State (batch_heap [[("name", VStr "order:placed")]]) []
       [LogWarning "Some events failed validation and were excluded."]).
Proof.
  split.
  - apply (lambda_handler_nothing_accepted last_seen_order always_ok (VRef 0)
             VNone (batch_heap []) [] [] (VRef 1) []);
      [apply last_seen_set_order|reflexivity..].
  - apply (lambda_handler_nothing_accepted last_seen_order always_ok (VRef 0)
             VNone (batch_heap [[("name", VStr "order:placed")]]) [] []
             (VRef 1) [VRef 2]);
      [apply last_seen_set_order|reflexivity..].
Defined.

(** ** More on [add_type] *)

(** X4: on a dictionary without the ["name"] key, [add_type] logs
    "Missing key in event" and lets the [KeyError] through; the dictionary
    is left as it was (the assignment is never reached). *)
Theorem add_type_missing_name
  (h : heap) (e : pyval) (so : list printed) (lg : list log_entry) :
  is_dict h e = true →
  has_key h e "name" = false →
  add_type e (State h so lg)
  = (Raises (KeyError "name"),
     State h so (lg ++ [LogError "Missing key in event" (KeyError "name")])).
Proof.
  intros Hd Hk. rewrite add_type_run.
  assert (getitem h e "name" = Raises (KeyError "name")) as ->
    by (by apply getitem_KeyError).
  done.
Qed.

(** The fourth record of the module's [invalid_event]. *)
Lemma add_type_missing_name_witness :
  add_type (VRef 5) (State (batch_heap invalid_event) [] [])
  = (Raises (KeyError "name"),
     State (batch_heap invalid_event) []
       [LogError "Missing key in event" (KeyError "name")]).
Proof.
  apply (add_type_missing_name (batch_heap invalid_event) (VRef 5) [] []);
    reflexivity.
Defined.

(** X5: classifying a record twice is the same as classifying it once:
    after a successful [add_type], a second call on the same record
    returns it again and changes nothing. *)
Theorem add_type_twice
  (h : heap) (e e' : pyval) (so : list printed) (lg : list log_entry)
  (s' : state) :
  add_type e (State h so lg) = (Returns e', s') →
  add_type e s' = (Returns e, s').
Proof.
  rewrite add_type_run.
  destruct (getitem h e "name") as [v|x] eqn:Hn; [|by destruct x].
  destruct v as [| | | |n|]; try done. intros [= <- <-].
  rewrite add_type_run, getitem_decorate_ne, Hn by done.
  rewrite decorated_id; [done|].
  exists (category n). rewrite category_of_decorate.
  assert (category_of h e = Some (category n)) as Hc
    by (apply category_of_Some; eauto).
  split; [done|]. by apply decorate_decorated.
Qed.

Lemma add_type_twice_witness :
  let h := [ODict [("name", VStr "user:created"); ("event_id", VInt 1)]] in
  let h' := [ODict [("name", VStr "user:created"); ("event_id", VInt 1);
                    ("event_type", VStr "user")]] in
  add_type (VRef 0) (State h' [] []) = (Returns (VRef 0), State h' [] []).
Proof.
  intros h h'.
  apply (add_type_twice h (VRef 0) (VRef 0) [] [] (State h' [] [])).
  reflexivity.
Defined.

Lemma split_first_shape n t :
  first_item (split sep n) = Returns t →
  index 0 ":" t = None ∧ (n = t ∨ ∃ rest, n = t ++ ":" ++ rest).
Proof.
  revert t. induction n as [|c n IH]; intros t.
  - intros [= <-]. split; [done|by left].
  - cbn [split]. destruct (Ascii.eqb_spec c sep) as [->|Hc].
    + intros [= <-]. split; [done|]. right. by exists n.
    + destruct (split sep n) as [|w ws] eqn:Hs;
        [by apply split_nonempty in Hs|].
      intros [= <-]. destruct (IH w eq_refl) as [Hw Hn]. split.
      * cbn [index String.prefix].
        destruct (ascii_dec ":" c) as [<-|_]; [done|]. by rewrite Hw.
      * destruct Hn as [->|[rest ->]]; [by left|]. right. by exists rest.
Qed.

(** X6: whenever [add_type] returns, the type it has stored contains no
    [":"], and the name is either that type itself or the type followed
    by [":"] and the rest of the name. *)
Theorem add_type_type_shape
  (h : heap) (e e' : pyval) (so : list printed) (lg : list log_entry)
  (s' : state) :
  add_type e (State h so lg) = (Returns e', s') →
  ∃ n t,
    getitem h e "name" = Returns (VStr n) ∧
    getitem (st_heap s') e "event_type" = Returns (VStr t) ∧
    index 0 ":" t = None ∧
    (n = t ∨ ∃ rest, n = t ++ ":" ++ rest).
Proof.
  rewrite add_type_run.
  destruct (getitem h e "name") as [v|x] eqn:Hn; [|by destruct x].
  destruct v as [| | | |n|]; try done. intros [= <- <-].
  exists n, (category n). split; [done|]. split.
  - apply decorate_decorated, category_of_Some. eauto.
  - apply split_first_shape, split_first_category.
Qed.

Lemma add_type_type_shape_witness :
  ∃ n t,
    getitem [ODict [("name", VStr "a:b:c"); ("event_id", VInt 1)]] (VRef 0) "name"
    = Returns (VStr n) ∧
    getitem [ODict [("name", VStr "a:b:c"); ("event_id", VInt 1);
                    ("event_type", VStr "a")]] (VRef 0) "event_type"
    = Returns (VStr t) ∧
    index 0 ":" t = None ∧
    (n = t ∨ ∃ rest, n = t ++ ":" ++ rest).
Proof.
  apply (add_type_type_shape
           [ODict [("name", VStr "a:b:c"); ("event_id", VInt 1)]]
           (VRef 0) (VRef 0) [] []
           (State [ODict [("name", VStr "a:b:c"); ("event_id", VInt 1);
                          ("event_type", VStr "a")]] [] [])).
  reflexivity.
Defined.

Lemma dict_keys_dict_set k v d :
  dict_keys (dict_set k v d)
  = if bool_decide (k ∈ dict_keys d) then dict_keys d
    else (dict_keys d ++ [k])%list.
Proof.
  induction d as [|[k0 v0] d IH]; [done|]. cbn [dict_set dict_keys map fst].
  destruct (String.eqb_spec k0 k) as [->|Hne].
  - rewrite bool_decide_true by apply list_elem_of_here. done.
  - cbn [map fst]. fold (dict_keys d). fold (dict_keys (dict_set k v d)).
    rewrite IH. case_bool_decide as Hin.
    + by rewrite bool_decide_true by by apply list_elem_of_further.
    + rewrite bool_decide_false; [done|].
      intros [?|?]%elem_of_cons; [by subst|done].
Qed.

(** X7: [add_type] keeps the keys of the record in their order: an
    ["event_type"] the record already has is overwritten where it stands,
    otherwise the key is added after all the others; every other key
    keeps its value. *)
Theorem add_type_keys
  (h : heap) (l : loc) (d : dict) (n : string)
  (so : list printed) (lg : list log_entry) :
  h !! l = Some (ODict d) →
  dict_get "name" d = Some (VStr n) →
  ∃ d',
    st_heap (snd (add_type (VRef l) (State h so lg))) !! l = Some (ODict d') ∧
    dict_keys d' = (if bool_decide ("event_type" ∈ dict_keys d)
                    then dict_keys d
                    else (dict_keys d ++ ["event_type"])%list) ∧
    dict_get "event_type" d' = Some (VStr (category n)) ∧
    ∀ k, k ≠ "event_type" → dict_get k d' = dict_get k d.
Proof.
  intros Hl Hn.
  assert (getitem h (VRef l) "name" = Returns (VStr n)) as Hg
    by (apply getitem_Returns; eauto).
  assert (category_of h (VRef l) = Some (category n)) as Hc
    by (apply category_of_Some; eauto).
  rewrite add_type_run, Hg. cbn [snd st_heap].
  exists (dict_set "event_type" (VStr (category n)) d).
  rewrite decorate_lookup, Hl, Hc, decide_True by done.
  split; [done|]. split; [apply dict_keys_dict_set|].
  split; [apply dict_get_set_eq|].
  intros k Hk. by apply dict_get_set_ne.
Qed.

(** A record that arrives with an [event_type] of its own. *)
Lemma add_type_keys_witness :
  let d := [("event_type", VStr "zzz"); ("name", VStr "user:created");
            ("event_id", VInt 1)] in
  ∃ d',
    st_heap (snd (add_type (VRef 0) (State [ODict d] [] []))) !! 0
    = Some (ODict d') ∧
    dict_keys d' = ["event_type"; "name"; "event_id"] ∧
    dict_get "event_type" d' = Some (VStr "user") ∧
    ∀ k, k ≠ "event_type" → dict_get k d' = dict_get k d.
Proof.
  intros d. apply (add_type_keys [ODict d] 0 d "user:created" [] []);
    reflexivity.
Defined.

(** ** More on [add_events_to_group] *)

Lemma place_events_no_groups h evs : place_events h evs [] = Returns [].
Proof. induction evs as [|e evs IH]; [done|]. by cbn [place_events place_event obind]. Qed.

Lemma place_event_Raises h e g gs x :
  getitem h e "event_type" = Raises x → place_event h e (g :: gs) = Raises x.
Proof. intros Hx. cbn [place_event]. by rewrite Hx. Qed.

Lemma place_events_Raises h pre e post x groups :
  Forall (fun e => has_key h e "event_type") pre →
  getitem h e "event_type" = Raises x →
  groups ≠ [] →
  place_events h (pre ++ e :: post) groups = Raises x.
Proof.
  intros Hpre Hx. revert groups.
  induction Hpre as [|p pre Hp _ IH]; intros groups Hne.
  - destruct groups as [|g gs]; [done|].
    cbn [app place_events]. by rewrite (place_event_Raises h e g gs x Hx).
  - cbn [app place_events]. unfold has_key in Hp.
    destruct (getitem h p "event_type") as [v|] eqn:Hv; [|done].
    rewrite (place_event_run h p groups v Hv). cbn [obind]. apply IH.
    by destruct groups.
Qed.

(** X8: without any type [add_events_to_group] returns no group and never
    looks at the events; with at least one type, the first event that
    cannot be subscripted with ["event_type"] (a dictionary without the
    key, or a value that is no dictionary) makes the whole call raise, and
    no group is returned. *)
Theorem add_events_to_group_raises
  (h : heap) (pre post : list pyval) (e : pyval) (x : exn)
  (event_types : list string) :
  Forall (fun e => has_key h e "event_type") pre →
  getitem h e "event_type" = Raises x →
  add_events_to_group h (pre ++ e :: post) [] = Returns [] ∧
  (event_types ≠ [] →
   add_events_to_group h (pre ++ e :: post) event_types = Raises x).
Proof.
  intros Hpre Hx. split; [apply place_events_no_groups|].
  intros Hne. apply place_events_Raises; [done..|].
  by destruct event_types.
Qed.

(** An event without the key after one that has it. *)
Lemma add_events_to_group_raises_witness :
  let h := [ODict [("event_type", VStr "user")]; ODict [("name", VStr "x")]] in
  add_events_to_group h [VRef 0; VRef 1] [] = Returns [] ∧
  add_events_to_group h [VRef 0; VRef 1] ["user"] = Raises (KeyError "event_type").
Proof.
  intros h.
  destruct (add_events_to_group_raises h [VRef 0] [] (VRef 1)
              (KeyError "event_type") ["user"]) as [H0 H1].
  - repeat constructor.
  - reflexivity.
  - split; [exact H0|]. apply H1. discriminate.
Defined.

Lemma zip_with_map_same {A B C D} (f : B → C → D) (g1 : A → B) (g2 : A → C) l :
  zip_with f (map g1 l) (map g2 l) = map (fun t => f (g1 t) (g2 t)) l.
Proof. induction l as [|t l IH]; [done|]. simpl. by rewrite IH. Qed.

(** X9: grouping is compatible with appending batches: the groups of
    [evs1 ++ evs2] are, type by type, the groups of [evs1] followed by the
    events of the groups of [evs2]. *)
Theorem add_events_to_group_app
  (h : heap) (evs1 evs2 : list pyval) (event_types : list string) :
  Forall (fun e => has_key h e "event_type") evs1 →
  Forall (fun e => has_key h e "event_type") evs2 →
  ∃ groups1 groups2,
    add_events_to_group h evs1 event_types = Returns groups1 ∧
    add_events_to_group h evs2 event_types = Returns groups2 ∧
    add_events_to_group h (evs1 ++ evs2) event_types
    = Returns (zip_with (fun g1 g2 => Group (event_type g1) (events g1 ++ events g2))
                        groups1 groups2).
Proof.
  intros H1 H2. do 2 eexists.
  split; [by apply add_events_to_group_run|].
  split; [by apply add_events_to_group_run|].
  rewrite add_events_to_group_run by by apply Forall_app.
  rewrite zip_with_map_same. f_equal. apply map_ext. intros t.
  cbn [event_type events]. by rewrite filter_app.
Qed.

Lemma add_events_to_group_app_witness :
  let h := [ODict [("event_type", VStr "user")];
            ODict [("event_type", VStr "order")];
            ODict [("event_type", VStr "user")]] in
  ∃ groups1 groups2,
    add_events_to_group h [VRef 0; VRef 1] ["user"; "order"] = Returns groups1 ∧
    add_events_to_group h [VRef 2] ["user"; "order"] = Returns groups2 ∧
    add_events_to_group h ([VRef 0; VRef 1] ++ [VRef 2]) ["user"; "order"]
    = Returns (zip_with (fun g1 g2 => Group (event_type g1) (events g1 ++ events g2))
                        groups1 groups2).
Proof.
  intros h.
  apply (add_events_to_group_app h [VRef 0; VRef 1] [VRef 2] ["user"; "order"]);
    repeat constructor.
Defined.

(** ** The groups of the handler *)

Lemma concat_filter_head {A} (f : A → option string) (e : A) (l : list A)
  (t0 : string) (ts : list string) :
  f e = Some t0 → NoDup ts → t0 ∈ ts →
  concat (map (fun t => filter (fun x => f x = Some t) (e :: l)) ts)
  ≡ₚ e :: concat (map (fun t => filter (fun x => f x = Some t) l) ts).
Proof.
  intros He. induction 1 as [|t ts Ht Hnd IH]; [by intros ?%elem_of_nil|].
  intros Hin. cbn [map concat]. rewrite filter_cons.
  destruct (decide (t = t0)) as [->|Hne].
  - rewrite decide_True by done. cbn [app].
    apply Permutation_skip. apply Permutation_app_head.
    assert (map (fun t => filter (fun x => f x = Some t) (e :: l)) ts
            = map (fun t => filter (fun x => f x = Some t) l) ts) as ->; [|done].
    apply map_ext_in. intros t Hin'. rewrite filter_cons, decide_False; [done|].
    rewrite He. intros [= <-]. by apply Ht, list_elem_of_In.
  - rewrite decide_False by (rewrite He; congruence).
    apply elem_of_cons in Hin as [->|Hin]; [done|].
    rewrite (IH Hin). by rewrite Permutation_middle.
Qed.

Lemma concat_filter_partition {A} (f : A → option string) (l : list A)
  (ts : list string) :
  NoDup ts → (∀ e, e ∈ l → ∃ t, t ∈ ts ∧ f e = Some t) →
  concat (map (fun t => filter (fun x => f x = Some t) l) ts) ≡ₚ l.
Proof.
  intros Hnd. induction l as [|e l IH]; intros Hcov.
  - clear. induction ts as [|t ts IH]; [done|]. cbn [map concat]. by rewrite IH.
  - destruct (Hcov e (list_elem_of_here e l)) as (t0 & Hin & He).
    rewrite (concat_filter_head f e l t0 ts He Hnd Hin).
    apply Permutation_skip, IH. intros x Hx. by apply Hcov, list_elem_of_further.
Qed.

(** X10: when the handler gets as far as its groups, they partition the
    accepted records: the types of the groups are pairwise distinct, no
    group is empty, and the groups' events taken together are the accepted
    records, each one exactly as often as it occurs in the batch. *)
Theorem groups_partition_accepted
  (order : list string -> list string) (event : pyval)
  (h : heap) (so : list printed) (lg : list log_entry)
  (evs : pyval) (items : list pyval) :
  set_order order →
  getitem h event "events" = Returns evs →
  iterate h evs = Returns items →
  forallb (is_dict h) items = true →
  Forall (fun e => named h e) (accepted h items) →
  ∃ groups s',
    lambda_handler_groups order event (State h so lg) = (Returns groups, s') ∧
    NoDup (map event_type groups) ∧
    Forall (fun g => events g ≠ []) groups ∧
    concat (map events groups) ≡ₚ accepted h items.
Proof.
  intros Hord Hev Hit Hall Hnamed.
  rewrite (lambda_handler_groups_run order event h so lg evs items) by done.
  rewrite bool_decide_true by by apply named_prefix_all.
  do 2 eexists. split; [done|].
  destruct (Hord (categories h (accepted h items))) as [Hnd Hin].
  unfold expected_groups. rewrite !map_map. cbn [event_type events].
  rewrite map_id. split; [done|]. split.
  - apply Forall_forall. intros g (t & -> & Ht)%list_elem_of_fmap.
    apply Hin, list_elem_of_omap in Ht as (e & He & Hc). cbn [events].
    intros Hnil. eapply (filter_nil_not_elem_of _ _ e); [exact Hnil|exact Hc|done].
  - apply concat_filter_partition; [done|].
    intros e He. rewrite Forall_forall in Hnamed.
    destruct (named_category h e (Hnamed e He)) as [t Ht].
    exists t. split; [|done]. apply Hin, list_elem_of_omap. eauto.
Qed.

(** The module's first input: five groups for seven records. *)
Lemma groups_partition_accepted_witness :
  let h := batch_heap event in
  let items := map VRef (seq 2 7) in
  ∃ groups s',
    lambda_handler_groups last_seen_order (VRef 0) (State h [] [])
    = (Returns groups, s') ∧
    NoDup (map event_type groups) ∧
    Forall (fun g => events g ≠ []) groups ∧
    concat (map events groups) ≡ₚ accepted h items.
Proof.
  intros h items.
  apply (groups_partition_accepted last_seen_order (VRef 0) h [] [] (VRef 1) items).
  - apply last_seen_set_order.
  - reflexivity.
  - reflexivity.
  - reflexivity.
  - repeat constructor.
Defined.

(** ** What the handler never touches *)






(** ** What the handler logs *)

Local Ltac log_shape :=
  cbn [snd st_log app]; rewrite <-?app_assoc, ?app_nil_r;
  split; [done|]; split; [by auto|];
  first [by left | by (right; left) | by (right; right; eexists)].

(** X12: a run adds to the log at most the one validation warning,
    followed by at most one error entry of the handler itself; the entry
    "Missing key in event" of [add_type] never appears, because only
    records that have a ["name"] reach [add_type]. *)
Theorem lambda_handler_log
  (order : list string -> list string) (write_ok : group -> heap -> bool)
  (event context : pyval) (h : heap) (so : list printed) (lg : list log_entry) :
  ∃ w err : list log_entry,
    st_log (snd (lambda_handler order write_ok event context (State h so lg)))
    = (lg ++ w ++ err)%list ∧
    (w = [] ∨ w = [LogWarning "Some events failed validation and were excluded."]) ∧
    (err = [] ∨
     err = [LogError "Missing key in event data" (KeyError "events")] ∨
     ∃ x, err = [LogError "An unexpected error occurred" x]).
Proof.
  rewrite lambda_handler_unfold, lambda_handler_groups_total.
  destruct (getitem h event "events") as [evs|x] eqn:Hev.
  - destruct (iterate h evs) as [items|x] eqn:Hit.
    + destruct (forallb (is_dict h) items).
      * exists (warning h items).
        assert (warning h items = [] ∨
                warning h items
                = [LogWarning "Some events failed validation and were excluded."])
          as Hw by (unfold warning; case_bool_decide; auto).
        case_bool_decide.
        -- destruct (all_written _ _ _).
           ++ exists []. log_shape.
           ++ exists [LogError "An unexpected error occurred" OSError]. log_shape.
        -- exists [LogError "An unexpected error occurred" AttributeError].
           log_shape.
      * exists [], [LogError "An unexpected error occurred" AttributeError].
        log_shape.
    + exists [], [LogError "An unexpected error occurred" x].
      destruct x; try log_shape.
      by apply iterate_no_KeyError in Hit.
  - destruct x as [k| | | |];
      try (eexists [], [LogError "An unexpected error occurred" _]; log_shape).
    apply getitem_KeyError in Hev as (-> & _ & _).
    exists [], [LogError "Missing key in event data" (KeyError "events")].
    log_shape.
Qed.

(** ** Two runs that iterate the set of types differently *)






